(** * Ledger events of the shared crate (src/shared/src/ledger/events.rs)

    A shallow embedding of the event model: [EventType], [EventLevel],
    [Event] with its attribute map, the indexing operations, the
    conversions from IBC and proposal effects, the conversion into the
    Tendermint ABCI event, [Event::new_tx_event], and the JSON parser
    [TryFrom<&serde_json::Value> for Attributes].

    A Rust [HashMap<String, String>] is a stdpp [gmap string string];
    a panic ([unreachable!], [unwrap] on [Err]) is an explicit outcome. *)

From Stdlib Require Import String Ascii List Permutation ZArith.
From Stdlib.Strings Require Import Byte.
From stdpp Require Import base gmap strings list fin_maps pretty.

Open Scope string_scope.
Set Warnings "-register-all".

(* ------------------------------------------------------------------ *)
(** ** Data model *)

(** [EventLevel::Block], [EventLevel::Tx], in their own name space so
    that [Tx] can also name the transaction type. *)
Module EventLevel.
Inductive EventLevel :=
| Block
| Tx.
End EventLevel.
Abbreviation EventLevel := EventLevel.EventLevel.

Inductive EventType :=
| Accepted
| Applied
| Ibc (t : string)
| Proposal.

Record Event := mkEvent {
  event_type : EventType;
  level : EventLevel;
  attributes : gmap string string;
}.

(** [impl Display for EventType] *)
Definition event_type_to_string (e : EventType) : string :=
  match e with
  | Accepted => "accepted"
  | Applied => "applied"
  | Ibc t => t
  | Proposal => "proposal"
  end.

Definition set_attributes (ev : Event) (m : gmap string string) : Event :=
  mkEvent (event_type ev) (level ev) m.

(* ------------------------------------------------------------------ *)
(** ** Attribute access on [Event] *)

(** [Event::contains_key] *)
Definition contains_key (ev : Event) (key : string) : bool :=
  bool_decide (is_Some (attributes ev !! key)).

(** [Event::get] *)
Definition get (ev : Event) (key : string) : option string :=
  attributes ev !! key.

(** [impl Index<&str> for Event]: [&self.attributes[index]] panics on
    an absent key, modelled by [None]. *)
Definition index (ev : Event) (idx : string) : option string :=
  attributes ev !! idx.

(** [impl IndexMut<&str> for Event]: inserts [String::new()] when the key
    is absent; the returned [&mut String] is the slot of [idx] in the
    resulting event, so the result is that event together with the value
    the handle currently points to ([get_mut(..).unwrap()] cannot fail). *)
Definition index_mut (ev : Event) (idx : string) : Event * string :=
  let ev' :=
    if negb (contains_key ev idx)
    then set_attributes ev (<[idx := ""]> (attributes ev))
    else ev in
  (ev', default "" (attributes ev' !! idx)).

(** [event[idx] = v]: take the mutable handle, then overwrite its target. *)
Definition assign_index (ev : Event) (idx : string) (v : string) : Event :=
  let ev' := fst (index_mut ev idx) in
  set_attributes ev' (<[idx := v]> (attributes ev')).

(* ------------------------------------------------------------------ *)
(** ** Conversions into [Event] *)

(** The effect records [IbcEvent] (crate::types::ibc) and [ProposalEvent]
    (governance utils): an event-type string and an attribute map. *)
Record IbcEvent := mkIbcEvent {
  ibc_event_type : string;
  ibc_attributes : gmap string string;
}.

Record ProposalEvent := mkProposalEvent {
  proposal_event_type : string;
  proposal_attributes : gmap string string;
}.

(** [impl From<IbcEvent> for Event] *)
Definition event_of_ibc (ibc_event : IbcEvent) : Event :=
  mkEvent (Ibc (ibc_event_type ibc_event)) EventLevel.Tx (ibc_attributes ibc_event).

(** [impl From<ProposalEvent> for Event] *)
Definition event_of_proposal (proposal_event : ProposalEvent) : Event :=
  mkEvent Proposal EventLevel.Block (proposal_attributes proposal_event).

(* ------------------------------------------------------------------ *)
(** ** Conversion into the Tendermint ABCI event *)

Record EventAttribute := mkEventAttribute {
  key : string;
  value : string;
  index_flag : bool;   (* the field [index] *)
}.

Record AbciEvent := mkAbciEvent {
  abci_type : string;          (* the field [r#type] *)
  abci_attributes : list EventAttribute;
}.

(** [impl From<Event> for tendermint_proto::abci::Event]; the iteration
    order of [HashMap::into_iter] is that of [map_to_list]. *)
Definition abci_of_event (event : Event) : AbciEvent :=
  mkAbciEvent
    (event_type_to_string (event_type event))
    (map (fun '(k, v) => mkEventAttribute k v true)
         (map_to_list (attributes event))).

(* ------------------------------------------------------------------ *)
(** ** Hashes *)

(** Modelled from the spec: [crate::types::hash::Hash] and its [Display]
    (not under src/): a 32-byte digest, rendered as a hex string, two
    upper-case hex digits per byte. *)
Record Hash := mkHash {
  hash_bytes : list byte;
  hash_bytes_len : length hash_bytes = 32%nat;
}.

Definition hex_digit (n : N) : ascii :=
  if (n <? 10)%N then ascii_of_N (48 + n) else ascii_of_N (55 + n).

Fixpoint hex_upper (bs : list byte) : string :=
  match bs with
  | [] => ""
  | b :: bs' =>
      String (hex_digit (N.div (Byte.to_N b) 16))
        (String (hex_digit (N.modulo (Byte.to_N b) 16)) (hex_upper bs'))
  end.

Definition hash_to_string (h : Hash) : string := hex_upper (hash_bytes h).

(** [u64::to_string]: the decimal rendering of a [u64] (an [N] below
    [2^64]). *)
Definition u64_to_string (n : N) : string := pretty n.

(* ------------------------------------------------------------------ *)
(** ** Transactions and [Event::new_tx_event] *)

Section TxEvents.

(** The payloads of the header variants and the rest of a transaction
    are opaque to the event code. *)
Variables WrapperTx DecryptedTx ProtocolTx RawHeader TxBody : Type.

(** [RawHeader::default()] *)
Variable raw_header_default : RawHeader.

(** Modelled from the spec: [crate::types::transaction::TxType]
    (not under src/), the transaction-type discriminant. *)
Inductive TxType :=
| Raw (h : RawHeader)
| Wrapper (w : WrapperTx)
| Decrypted (d : DecryptedTx)
| Protocol (p : ProtocolTx).

(** Modelled from the spec: [crate::proto::Tx] (not under src/): a
    header with the transaction-type discriminant and the rest. *)
Record Tx := mkTx {
  tx_header : TxType;
  tx_body : TxBody;
}.

(** [Tx::header] *)
Definition header (tx : Tx) : TxType := tx_header tx.

(** Modelled from the spec: [Tx::update_header] replaces the header. *)
Definition update_header (tx : Tx) (h : TxType) : Tx := mkTx h (tx_body tx).

(** [Tx::header_hash]: a hash function of the transaction. *)
Variable header_hash : Tx -> Hash.

(** The discriminants [new_tx_event] handles. *)
Definition valid_tx_type (t : TxType) : bool :=
  match t with
  | Wrapper _ | Decrypted _ | Protocol _ => true
  | Raw _ => false
  end.

Definition empty_tx_event (e : EventType) : Event := mkEvent e EventLevel.Tx ∅.

(** [Event::new_tx_event]; [None] is the [unreachable!()] panic. *)
Definition new_tx_event (tx : Tx) (height : N) : option Event :=
  let event :=
    match header tx with
    | Wrapper wrapper =>
        let event := empty_tx_event Accepted in
        Some (assign_index event "hash" (hash_to_string (header_hash tx)))
    | Decrypted decrypted =>
        let event := empty_tx_event Applied in
        Some (assign_index event "hash"
          (hash_to_string
             (header_hash (update_header tx (Raw raw_header_default)))))
    | Protocol _ =>
        let event := empty_tx_event Applied in
        Some (assign_index event "hash" (hash_to_string (header_hash tx)))
    | _ => None
    end in
  match event with
  | None => None
  | Some event =>
      let event := assign_index event "height" (u64_to_string height) in
      Some (assign_index event "log" "")
  end.

End TxEvents.

Arguments Raw {WrapperTx DecryptedTx ProtocolTx RawHeader} h.
Arguments Wrapper {WrapperTx DecryptedTx ProtocolTx RawHeader} w.
Arguments Decrypted {WrapperTx DecryptedTx ProtocolTx RawHeader} d.
Arguments Protocol {WrapperTx DecryptedTx ProtocolTx RawHeader} p.
Arguments mkTx {WrapperTx DecryptedTx ProtocolTx RawHeader TxBody} tx_header tx_body.
Arguments valid_tx_type {WrapperTx DecryptedTx ProtocolTx RawHeader} t.
Arguments header {WrapperTx DecryptedTx ProtocolTx RawHeader TxBody} tx.
Arguments update_header {WrapperTx DecryptedTx ProtocolTx RawHeader TxBody} tx h.
Arguments new_tx_event {WrapperTx DecryptedTx ProtocolTx RawHeader TxBody}
  raw_header_default header_hash tx height.

Definition zero_hash : Hash := mkHash (repeat x00 32) eq_refl.

Example u64_to_string_ex : u64_to_string 1234 = "1234".
Proof. reflexivity. Qed.

Example hash_to_string_ex :
  hash_to_string zero_hash = "0000000000000000000000000000000000000000000000000000000000000000".
Proof. reflexivity. Qed.

(* ------------------------------------------------------------------ *)
(** ** JSON values ([serde_json::Value]) *)

(** Numbers are kept as integers; objects as their list of fields
    ([serde_json::Map] has unique keys, looked up by name). *)
Inductive Value :=
| Null
| Bool (b : bool)
| Number (n : Z)
| JString (s : string)
| Array (l : list Value)
| Object (fields : list (string * Value)).

Fixpoint assoc_get (fields : list (string * Value)) (k : string) : option Value :=
  match fields with
  | [] => None
  | (k', v) :: rest => if String.eqb k' k then Some v else assoc_get rest k
  end.

(** [Value::get] with a [&str] index: [None] on anything but an object. *)
Definition value_get (json : Value) (k : string) : option Value :=
  match json with
  | Object fields => assoc_get fields k
  | _ => None
  end.

(** [serde_json::from_value::<Vec<Value>>]: only an array deserializes. *)
Definition from_value_vec (v : Value) : option (list Value) :=
  match v with
  | Array l => Some l
  | _ => None
  end.

(** [serde_json::from_value::<String>]: only a string deserializes. *)
Definition from_value_string (v : Value) : option string :=
  match v with
  | JString s => Some s
  | _ => None
  end.

(* ------------------------------------------------------------------ *)
(** ** Results with panics *)

(** [enum Error] of events.rs. *)
Inductive Error :=
| MissingAttributes
| MissingKey (ctx : string)
| MissingValue (ctx : string).

(** The thin wrapper [Attributes(HashMap<String, String>)]. *)
Record Attributes := mkAttributes { attrs_map : gmap string string }.

(** [Attributes::get] and [Attributes::take] *)
Definition attributes_get (a : Attributes) (k : string) : option string :=
  attrs_map a !! k.

Definition attributes_take (a : Attributes) (k : string)
  : Attributes * option string :=
  (mkAttributes (delete k (attrs_map a)), attrs_map a !! k).

(** A Rust computation returning [Result<A, Error>] that may also panic. *)
Inductive Outcome (A : Type) :=
| Ok (a : A)
| Err (e : Error)
| Panic.
Arguments Ok {A} a.
Arguments Err {A} e.
Arguments Panic {A}.

Definition obind {A B} (m : Outcome A) (f : A -> Outcome B) : Outcome B :=
  match m with
  | Ok a => f a
  | Err e => Err e
  | Panic => Panic
  end.

Notation "'let?' x := m 'in' k" := (obind m (fun x => k))
  (at level 200, x name, m at level 100, k at level 200).

(** [opt.ok_or(e)?] / [opt.ok_or_else(|| e)?] *)
Definition ok_or {A} (o : option A) (e : Error) : Outcome A :=
  match o with
  | Some a => Ok a
  | None => Err e
  end.

(** [res.unwrap()] on a deserialization result *)
Definition unwrap {A} (o : option A) : Outcome A :=
  match o with
  | Some a => Ok a
  | None => Panic
  end.

(* ------------------------------------------------------------------ *)
(** ** [impl TryFrom<&serde_json::Value> for Attributes] *)

Section Parser.

(** [serde_json::to_string(&attr).unwrap()]: the compact serialization
    of a [Value] (serializing a [Value] does not fail). *)
Variable to_string : Value -> string.

(** The [for attr in attrs] loop, with the map built so far. *)
Fixpoint parse_attrs (attrs : list Value) (attributes : gmap string string)
  : Outcome Attributes :=
  match attrs with
  | [] => Ok (mkAttributes attributes)
  | attr :: rest =>
      let? kv := ok_or (value_get attr "key") (MissingKey (to_string attr)) in
      let? k := unwrap (from_value_string kv) in
      let? vv := ok_or (value_get attr "value") (MissingValue (to_string attr)) in
      let? v := unwrap (from_value_string vv) in
      parse_attrs rest (<[k := v]> attributes)
  end.

Definition attributes_try_from (json : Value) : Outcome Attributes :=
  let? a := ok_or (value_get json "attributes") MissingAttributes in
  let? attrs := unwrap (from_value_vec a) in
  parse_attrs attrs ∅.

End Parser.

(** Modelled from the spec (section 6, the parsing boundary): the JSON
    shape [{type, attributes: [{key, value, index}, ...]}] under which an
    ABCI event reaches a subscriber. *)
Definition attribute_to_json (a : EventAttribute) : Value :=
  Object [("key", JString (key a)); ("value", JString (value a));
          ("index", Bool (index_flag a))].

Definition abci_to_json (e : AbciEvent) : Value :=
  Object [("type", JString (abci_type e));
          ("attributes", Array (map attribute_to_json (abci_attributes e)))].

(* ------------------------------------------------------------------ *)
(** ** Properties of the indexing operations *)

Lemma index_mut_attributes (ev : Event) (k : string) :
  attributes (fst (index_mut ev k)) =
    match attributes ev !! k with
    | Some _ => attributes ev
    | None => <[k := ""]> (attributes ev)
    end.
Proof.
  unfold index_mut, contains_key.
  case_bool_decide as H; destruct (attributes ev !! k) eqn:E; simpl;
    try reflexivity.
  - destruct H as [? H]; discriminate.
  - destruct H; eauto.
Qed.

Lemma assign_index_attributes (ev : Event) (k v : string) :
  attributes (assign_index ev k v) = <[k := v]> (attributes ev).
Proof.
  unfold assign_index, set_attributes. cbn [attributes].
  rewrite index_mut_attributes.
  destruct (attributes ev !! k); [reflexivity|].
  apply insert_insert_eq.
Qed.

Lemma assign_index_event_type (ev : Event) (k v : string) :
  event_type (assign_index ev k v) = event_type ev.
Proof. unfold assign_index, index_mut. simpl. by destruct (negb _). Qed.

Lemma assign_index_level (ev : Event) (k v : string) :
  level (assign_index ev k v) = level ev.
Proof. unfold assign_index, index_mut. simpl. by destruct (negb _). Qed.

Lemma assign_index_eq (ev : Event) (k v : string) :
  assign_index ev k v = mkEvent (event_type ev) (level ev) (<[k := v]> (attributes ev)).
Proof.
  rewrite <- assign_index_attributes, <- assign_index_event_type with (k := k) (v := v),
    <- assign_index_level with (k := k) (v := v).
  by destruct (assign_index ev k v).
Qed.

(* ------------------------------------------------------------------ *)
(** ** The shape of [new_tx_event] *)

Section NewTxEvent.
Context {WrapperTx DecryptedTx ProtocolTx RawHeader TxBody : Type}.
Context (raw_header_default : RawHeader).
Context (header_hash : Tx WrapperTx DecryptedTx ProtocolTx RawHeader TxBody -> Hash).

(** The hash attribute each branch writes. *)
Definition tx_hash_attribute (tx : Tx WrapperTx DecryptedTx ProtocolTx RawHeader TxBody)
  : string :=
  match header tx with
  | Decrypted _ => hash_to_string (header_hash (update_header tx (Raw raw_header_default)))
  | _ => hash_to_string (header_hash tx)
  end.

Definition tx_event_type (t : TxType WrapperTx DecryptedTx ProtocolTx RawHeader)
  : EventType :=
  match t with
  | Wrapper _ => Accepted
  | _ => Applied
  end.

Lemma new_tx_event_shape tx (height : N) :
  valid_tx_type (header tx) = true ->
  new_tx_event raw_header_default header_hash tx height =
    Some (mkEvent (tx_event_type (header tx)) EventLevel.Tx
      (<["log" := ""]> (<["height" := u64_to_string height]>
         (<["hash" := tx_hash_attribute tx]> ∅)))).
Proof.
  intros Hv. unfold new_tx_event, tx_hash_attribute.
  destruct (header tx); try discriminate; rewrite !assign_index_eq; reflexivity.
Qed.

Lemma new_tx_event_invalid tx (height : N) :
  valid_tx_type (header tx) = false ->
  new_tx_event raw_header_default header_hash tx height = None.
Proof.
  intros Hv. unfold new_tx_event. by destruct (header tx).
Qed.

End NewTxEvent.

Lemma hex_upper_length (bs : list byte) :
  String.length (hex_upper bs) = (2 * length bs)%nat.
Proof. induction bs; simpl; [reflexivity|]. rewrite IHbs. lia. Qed.

Lemma hash_to_string_nonempty (h : Hash) : hash_to_string h <> "".
Proof.
  unfold hash_to_string. intros E.
  apply (f_equal String.length) in E. rewrite hex_upper_length, hash_bytes_len in E.
  discriminate.
Qed.

(* ------------------------------------------------------------------ *)
(** ** Transaction events *)

(** C1: for each valid discriminant, the kind and the [hash] attribute of
    [new_tx_event]: a wrapper gives [Accepted] and the rendered header
    hash; a decrypted transaction gives [Applied] and the rendered hash of
    the transaction with its header replaced by [Raw(RawHeader::default())];
    a protocol transaction gives [Applied] and the rendered header hash. *)
Theorem new_tx_event_kind_and_hash
    {WrapperTx DecryptedTx ProtocolTx RawHeader TxBody : Type}
    (raw_header_default : RawHeader)
    (header_hash : Tx WrapperTx DecryptedTx ProtocolTx RawHeader TxBody -> Hash)
    (tx : Tx WrapperTx DecryptedTx ProtocolTx RawHeader TxBody) (height : N) :
  let ev := new_tx_event raw_header_default header_hash tx height in
  option_map event_type ev =
    match header tx with
    | Wrapper _ => Some Accepted
    | Decrypted _ | Protocol _ => Some Applied
    | Raw _ => None
    end /\
  ev ≫= (fun e => get e "hash") =
    match header tx with
    | Wrapper _ => Some (hash_to_string (header_hash tx))
    | Decrypted _ =>
        Some (hash_to_string (header_hash (update_header tx (Raw raw_header_default))))
    | Protocol _ => Some (hash_to_string (header_hash tx))
    | Raw _ => None
    end.
Proof.
  intros ev. subst ev.
  destruct (valid_tx_type (header tx)) eqn:Hv.
  - rewrite (new_tx_event_shape _ _ _ _ Hv). simpl. unfold get, tx_hash_attribute.
    cbn [attributes]. rewrite !lookup_insert_ne by discriminate.
    rewrite lookup_insert_eq.
    unfold tx_event_type. destruct (header tx); done.
  - rewrite (new_tx_event_invalid _ _ _ _ Hv). destruct (header tx); done.
Qed.

(** C2: for every valid discriminant and height [h], [new_tx_event] gives an
    event of level [Tx] whose [height] is the decimal rendering of [h],
    whose [log] is empty and whose [hash] is a non-empty string. *)
Theorem new_tx_event_common_attributes
    {WrapperTx DecryptedTx ProtocolTx RawHeader TxBody : Type}
    (raw_header_default : RawHeader)
    (header_hash : Tx WrapperTx DecryptedTx ProtocolTx RawHeader TxBody -> Hash)
    (tx : Tx WrapperTx DecryptedTx ProtocolTx RawHeader TxBody) (h : N) :
  valid_tx_type (header tx) = true ->
  exists ev,
    new_tx_event raw_header_default header_hash tx h = Some ev /\
    level ev = EventLevel.Tx /\
    get ev "height" = Some (u64_to_string h) /\
    get ev "log" = Some "" /\
    exists hs, get ev "hash" = Some hs /\ hs <> "".
Proof.
  intros Hv. rewrite (new_tx_event_shape _ _ _ _ Hv).
  eexists; split; [reflexivity|]. unfold get; cbn [attributes level].
  split; [done|].
  split; [rewrite lookup_insert_ne by discriminate; apply lookup_insert_eq|].
  split; [apply lookup_insert_eq|].
  exists (tx_hash_attribute raw_header_default header_hash tx).
  rewrite !lookup_insert_ne by discriminate. rewrite lookup_insert_eq.
  split; [done|]. unfold tx_hash_attribute.
  destruct (header tx); apply hash_to_string_nonempty.
Qed.

Lemma new_tx_event_common_attributes_witness :
  valid_tx_type (header (mkTx (@Wrapper unit unit unit unit tt) tt)) = true /\
  exists ev,
    new_tx_event tt (fun _ => zero_hash) (mkTx (@Wrapper unit unit unit unit tt) tt) 7
      = Some ev /\
    level ev = EventLevel.Tx /\
    get ev "height" = Some (u64_to_string 7) /\
    get ev "log" = Some "" /\
    exists hs, get ev "hash" = Some hs /\ hs <> "".
Proof.
  split; [reflexivity|].
  apply (new_tx_event_common_attributes tt (fun _ => zero_hash)
           (mkTx (@Wrapper unit unit unit unit tt) tt) 7).
  reflexivity.
Defined.

(** C9: [new_tx_event] panics ([unreachable!()], modelled as [None])
    exactly on a discriminant other than wrapper, decrypted or protocol,
    i.e. on [Raw]; on the three valid ones it always returns an event. *)
Theorem new_tx_event_unreachable
    {WrapperTx DecryptedTx ProtocolTx RawHeader TxBody : Type}
    (raw_header_default : RawHeader)
    (header_hash : Tx WrapperTx DecryptedTx ProtocolTx RawHeader TxBody -> Hash)
    (tx : Tx WrapperTx DecryptedTx ProtocolTx RawHeader TxBody) (height : N) :
  (new_tx_event raw_header_default header_hash tx height = None <->
     valid_tx_type (header tx) = false) /\
  (valid_tx_type (header tx) = true ->
     is_Some (new_tx_event raw_header_default header_hash tx height)).
Proof.
  split.
  - split.
    + intros E. destruct (valid_tx_type (header tx)) eqn:Hv; [|done].
      rewrite (new_tx_event_shape _ _ _ _ Hv) in E. discriminate.
    + apply new_tx_event_invalid.
  - intros Hv. rewrite (new_tx_event_shape _ _ _ _ Hv). eauto.
Qed.

(* ------------------------------------------------------------------ *)
(** ** Conversions *)

Lemma map_list_fmap {A B} (f : A -> B) (l : list A) : map f l = f <$> l.
Proof. induction l; simpl; [done|]. by rewrite IHl. Qed.

(** C6: the ABCI event's [type] is the [Display] rendering of the kind
    ("accepted", "applied", "proposal", and the sub-type itself for
    [Ibc]); its attributes are one [(key, value, true)] triple per entry
    of the attribute map: keys without duplicates, and a triple is present
    exactly when the map has that entry. *)
Theorem abci_of_event_spec (ev : Event) :
  let we := abci_of_event ev in
  abci_type we = event_type_to_string (event_type ev) /\
  event_type_to_string Accepted = "accepted" /\
  event_type_to_string Applied = "applied" /\
  event_type_to_string Proposal = "proposal" /\
  (forall s, event_type_to_string (Ibc s) = s) /\
  Forall (fun a => index_flag a = true) (abci_attributes we) /\
  NoDup (map key (abci_attributes we)) /\
  (forall k v, In (mkEventAttribute k v true) (abci_attributes we) <->
               attributes ev !! k = Some v).
Proof.
  intros we. subst we. unfold abci_of_event; cbn [abci_type abci_attributes].
  split; [done|]. do 4 (split; [done|]).
  split; [|split].
  - apply Forall_forall. intros a Ha. apply list_elem_of_In, in_map_iff in Ha.
    destruct Ha as [[k v] [<- _]]. reflexivity.
  - rewrite map_map.
    replace (map (fun x : string * string => key (let '(k, v) := x in mkEventAttribute k v true))
                 (map_to_list (attributes ev)))
      with ((map_to_list (attributes ev)).*1).
    + apply NoDup_fst_map_to_list.
    + rewrite <- map_list_fmap. apply map_ext. by intros [].
  - intros k v. rewrite in_map_iff. split.
    + intros [[k' v'] [E Hin]]. injection E as -> ->.
      apply elem_of_map_to_list. by apply list_elem_of_In.
    + intros Hl. exists (k, v). split; [done|].
      apply list_elem_of_In. by apply elem_of_map_to_list.
Qed.

(** C7: the conversion of an IBC effect is total and gives kind
    [Ibc(event_type)], level [Tx] and the effect's attribute map; that of
    a proposal effect gives kind [Proposal], level [Block] and the
    effect's attribute map. *)
Theorem event_of_effects_spec (ie : IbcEvent) (pe : ProposalEvent) :
  event_of_ibc ie = mkEvent (Ibc (ibc_event_type ie)) EventLevel.Tx (ibc_attributes ie) /\
  event_type (event_of_ibc ie) = Ibc (ibc_event_type ie) /\
  level (event_of_ibc ie) = EventLevel.Tx /\
  attributes (event_of_ibc ie) = ibc_attributes ie /\
  event_type (event_of_proposal pe) = Proposal /\
  level (event_of_proposal pe) = EventLevel.Block /\
  attributes (event_of_proposal pe) = proposal_attributes pe.
Proof. repeat split. Qed.

(* ------------------------------------------------------------------ *)
(** ** Indexing *)

(** C8: on a key absent from the event, [index_mut] hands out a slot
    holding the empty string, and after [event[k] = v] the non-fatal
    [get k] returns [v] and [contains_key k] is [true]. *)
Theorem index_mut_write_then_read (ev : Event) (k v : string) :
  attributes ev !! k = None ->
  snd (index_mut ev k) = "" /\
  get (assign_index ev k v) k = Some v /\
  contains_key (assign_index ev k v) k = true.
Proof.
  intros Hk. split; [|split].
  - unfold index_mut, contains_key. rewrite Hk.
    rewrite bool_decide_false by (intros [? H]; discriminate). simpl.
    by rewrite lookup_insert_eq.
  - unfold get. by rewrite assign_index_attributes, lookup_insert_eq.
  - unfold contains_key. rewrite assign_index_attributes, lookup_insert_eq.
    by apply bool_decide_true.
Qed.

Lemma index_mut_write_then_read_witness :
  attributes (mkEvent Applied EventLevel.Tx ∅) !! "hash" = None /\
  snd (index_mut (mkEvent Applied EventLevel.Tx ∅) "hash") = "" /\
  get (assign_index (mkEvent Applied EventLevel.Tx ∅) "hash" "ab") "hash" = Some "ab" /\
  contains_key (assign_index (mkEvent Applied EventLevel.Tx ∅) "hash" "ab") "hash" = true.
Proof.
  split; [reflexivity|].
  apply (index_mut_write_then_read (mkEvent Applied EventLevel.Tx ∅) "hash" "ab").
  reflexivity.
Defined.

(** C10: on a key already present, [index_mut] leaves the event as it is
    and its handle points to the stored value; the write through that
    handle changes the entry of that key only. *)
Theorem index_mut_present_frame (ev : Event) (k x v : string) :
  attributes ev !! k = Some x ->
  index_mut ev k = (ev, x) /\
  (forall k', k' <> k ->
     attributes (assign_index ev k v) !! k' = attributes ev !! k').
Proof.
  intros Hk. split.
  - unfold index_mut, contains_key. rewrite Hk.
    rewrite bool_decide_true by eauto. simpl. by rewrite Hk.
  - intros k' Hne. rewrite assign_index_attributes.
    by apply lookup_insert_ne.
Qed.

Lemma index_mut_present_frame_witness :
  attributes (mkEvent Accepted EventLevel.Tx {["log" := "x"]}) !! "log" = Some "x" /\
  index_mut (mkEvent Accepted EventLevel.Tx {["log" := "x"]}) "log"
    = (mkEvent Accepted EventLevel.Tx {["log" := "x"]}, "x") /\
  (forall k', k' <> "log" ->
     attributes (assign_index (mkEvent Accepted EventLevel.Tx {["log" := "x"]}) "log" "y") !! k'
       = attributes (mkEvent Accepted EventLevel.Tx {["log" := "x"]}) !! k').
Proof.
  split; [reflexivity|].
  apply (index_mut_present_frame (mkEvent Accepted EventLevel.Tx {["log" := "x"]})
           "log" "x" "y").
  reflexivity.
Defined.

(* ------------------------------------------------------------------ *)
(** ** The attribute parser *)

(** A record whose [key] and [value] fields both hold strings. *)
Definition string_pair (attr : Value) : Prop :=
  exists k v, value_get attr "key" = Some (JString k) /\
              value_get attr "value" = Some (JString v).

(** A field that, when present, holds a string. *)
Definition string_field (attr : Value) (f : string) : Prop :=
  forall x, value_get attr f = Some x -> exists s, x = JString s.

(** An input whose [attributes] field, when present, is an array of
    records whose [key] and [value] fields, when present, are strings. *)
Definition well_typed_input (json : Value) : Prop :=
  match value_get json "attributes" with
  | None => True
  | Some (Array l) => Forall (fun a => string_field a "key" /\ string_field a "value") l
  | Some _ => False
  end.

Section ParserFacts.
Variable to_string : Value -> string.

Lemma parse_attrs_good_prefix (good rest : list Value) (m : gmap string string) :
  Forall string_pair good ->
  exists m', parse_attrs to_string (good ++ rest) m = parse_attrs to_string rest m'.
Proof.
  intros Hg. revert m. induction Hg as [|attr good [k [v [Hk Hv]]] _ IH]; intros m.
  - by exists m.
  - simpl. rewrite Hk, Hv. simpl. apply IH.
Qed.

Lemma parse_attrs_not_missing_attributes (l : list Value) (m : gmap string string) :
  parse_attrs to_string l m <> Err MissingAttributes.
Proof.
  revert m. induction l as [|attr l IH]; intros m; simpl; [discriminate|].
  destruct (value_get attr "key"); simpl; [|discriminate].
  destruct (from_value_string v); simpl; [|discriminate].
  destruct (value_get attr "value"); simpl; [|discriminate].
  destruct (from_value_string v0); simpl; [apply IH|discriminate].
Qed.

Lemma parse_attrs_no_panic (l : list Value) (m : gmap string string) :
  Forall (fun a => string_field a "key" /\ string_field a "value") l ->
  parse_attrs to_string l m <> Panic.
Proof.
  intros Hl. revert m. induction Hl as [|attr l [Hk Hv] _ IH]; intros m; simpl;
    [discriminate|].
  destruct (value_get attr "key") as [kv|] eqn:Ek; simpl; [|discriminate].
  destruct (Hk kv Ek) as [k ->]. simpl.
  destruct (value_get attr "value") as [vv|] eqn:Ev; simpl; [|discriminate].
  destruct (Hv vv Ev) as [v ->]. simpl. apply IH.
Qed.

Lemma parse_attrs_wire (as_ : list EventAttribute) (m : gmap string string) :
  parse_attrs to_string (map attribute_to_json as_) m =
    Ok (mkAttributes (foldl (fun acc a => <[key a := value a]> acc) m as_)).
Proof.
  revert m. induction as_ as [|a as_ IH]; intros m; simpl; [done|]. apply IH.
Qed.

End ParserFacts.

Lemma foldl_insert_list_to_map (l : list (string * string)) :
  foldl (fun acc p => <[p.1 := p.2]> acc) (∅ : gmap string string) l =
    list_to_map (rev l).
Proof.
  induction l as [|p l IH] using rev_ind; [done|].
  rewrite foldl_app, rev_app_distr. simpl. by rewrite IH.
Qed.

Lemma foldl_insert_triples (ps : list (string * string)) (m : gmap string string) :
  foldl (fun acc a => <[key a := value a]> acc) m
    (map (fun '(k, v) => mkEventAttribute k v true) ps) =
  foldl (fun acc p => <[p.1 := p.2]> acc) m ps.
Proof.
  revert m. induction ps as [|[k v] ps IH]; intros m; simpl; [done|]. apply IH.
Qed.

(** C3: let an event's attribute map be built from pairs with unique
    keys; its ABCI attribute triples, in any order, fed to the attribute
    parser as the [attributes] array, parse successfully back to exactly
    that map. *)
Theorem attributes_roundtrip (to_string : Value -> string)
    (l : list (string * string)) (kind : EventType) (lvl : EventLevel)
    (triples : list EventAttribute) :
  NoDup l.*1 ->
  Permutation triples (abci_attributes (abci_of_event (mkEvent kind lvl (list_to_map l)))) ->
  attributes_try_from to_string
    (abci_to_json (mkAbciEvent (event_type_to_string kind) triples))
  = Ok (mkAttributes (list_to_map l)).
Proof.
  intros _ Hp. cbn [abci_of_event abci_attributes attributes] in Hp.
  apply Permutation_map_inv in Hp. destruct Hp as [ps [-> Hps]].
  unfold attributes_try_from, abci_to_json. simpl.
  rewrite parse_attrs_wire, foldl_insert_triples. f_equal. f_equal.
  rewrite foldl_insert_list_to_map.
  rewrite <- (list_to_map_to_list (list_to_map l : gmap string string)).
  symmetry. apply list_to_map_proper; [apply NoDup_fst_map_to_list|].
  rewrite Hps. apply Permutation_rev.
Qed.

Lemma attributes_roundtrip_witness :
  NoDup [("hash", "AB"); ("height", "3")].*1 /\
  Permutation [mkEventAttribute "height" "3" true; mkEventAttribute "hash" "AB" true]
    (abci_attributes (abci_of_event
       (mkEvent Accepted EventLevel.Tx (list_to_map [("hash", "AB"); ("height", "3")])))) /\
  attributes_try_from (fun _ => "")
    (abci_to_json (mkAbciEvent (event_type_to_string Accepted)
       [mkEventAttribute "height" "3" true; mkEventAttribute "hash" "AB" true]))
  = Ok (mkAttributes (list_to_map [("hash", "AB"); ("height", "3")])).
Proof.
  assert (Hn : NoDup [("hash", "AB"); ("height", "3")].*1)
    by (simpl; repeat constructor; set_solver).
  assert (Hp : Permutation [mkEventAttribute "height" "3" true; mkEventAttribute "hash" "AB" true]
    (abci_attributes (abci_of_event
       (mkEvent Accepted EventLevel.Tx (list_to_map [("hash", "AB"); ("height", "3")]))))).
  { vm_compute. first [apply perm_swap | reflexivity]. }
  split; [exact Hn|]. split; [exact Hp|].
  exact (attributes_roundtrip (fun _ => "") [("hash", "AB"); ("height", "3")]
           Accepted EventLevel.Tx _ Hn Hp).
Defined.

(** C4, counterexample: an [attributes] field that is not an array, or a
    record whose [key] is not a string, makes the parser panic through
    [unwrap] instead of returning an error. *)
Lemma attributes_try_from_panics :
  attributes_try_from (fun _ => "") (Object [("attributes", Number 5)]) = Panic /\
  attributes_try_from (fun _ => "")
    (Object [("attributes", Array [Object [("key", Number 1); ("value", JString "a")]])])
    = Panic.
Proof. split; reflexivity. Qed.

(** C4, as the code does it: the parser does not panic on an input whose
    [attributes] field, when present, is an array of records whose [key]
    and [value] fields, when present, are strings, so its outcome is a
    success or one of the three errors; it panics when the [attributes]
    field is present but not an array, and when the first record that is
    not a string pair has a non-string [key], or a string [key] and a
    non-string [value]. *)
Theorem attributes_try_from_panic_cases (to_string : Value -> string) (json : Value) :
  (well_typed_input json ->
     attributes_try_from to_string json <> Panic /\
     ((exists a, attributes_try_from to_string json = Ok a) \/
      attributes_try_from to_string json = Err MissingAttributes \/
      (exists c, attributes_try_from to_string json = Err (MissingKey c)) \/
      (exists c, attributes_try_from to_string json = Err (MissingValue c)))) /\
  (forall a, value_get json "attributes" = Some a -> from_value_vec a = None ->
     attributes_try_from to_string json = Panic) /\
  (forall good attr rest,
     value_get json "attributes" = Some (Array (good ++ attr :: rest)) ->
     Forall string_pair good ->
     ((exists kv, value_get attr "key" = Some kv /\ from_value_string kv = None) \/
      (exists k vv, value_get attr "key" = Some (JString k) /\
                    value_get attr "value" = Some vv /\ from_value_string vv = None)) ->
     attributes_try_from to_string json = Panic).
Proof.
  split; [|split].
  - unfold well_typed_input, attributes_try_from. intros Hw.
    destruct (value_get json "attributes") as [a|]; simpl.
    + destruct a; try contradiction. simpl.
      pose proof (parse_attrs_no_panic to_string l ∅ Hw) as Hnp.
      split; [exact Hnp|].
      destruct (parse_attrs to_string l ∅) as [r|[| c | c]|]; eauto 6; congruence.
    + split; [discriminate|]. eauto.
  - intros a Ha Hv. unfold attributes_try_from. rewrite Ha. simpl. by rewrite Hv.
  - intros good attr rest Ha Hg Hbad. unfold attributes_try_from. rewrite Ha. simpl.
    destruct (parse_attrs_good_prefix to_string good (attr :: rest) ∅ Hg) as [m' ->].
    simpl. destruct Hbad as [[kv [Hk Hkv]] | [k [vv [Hk [Hv Hvv]]]]].
    + rewrite Hk. simpl. by rewrite Hkv.
    + rewrite Hk. simpl. rewrite Hv. simpl. by rewrite Hvv.
Qed.

(** C5, counterexample: the second record lacks [key], yet the parser
    reports [MissingValue] for the first record, which lacks [value]. *)
Lemma attributes_try_from_first_error :
  value_get (Object [("value", JString "b")]) "key" = None /\
  attributes_try_from (fun _ => "")
    (Object [("attributes",
       Array [Object [("key", JString "a")]; Object [("value", JString "b")]])])
    = Err (MissingValue "").
Proof. split; reflexivity. Qed.

(** C5, as the code does it: an object input gives [MissingAttributes]
    exactly when it has no [attributes] field; at the first record of the
    array that is not a string pair (every earlier one being a pair of
    string [key] and [value]), a missing [key] gives [MissingKey] carrying
    the serialization of that record, and a string [key] with a missing
    [value] gives [MissingValue] carrying it. *)
Theorem attributes_try_from_errors (to_string : Value -> string) :
  (forall fields,
     attributes_try_from to_string (Object fields) = Err MissingAttributes <->
     assoc_get fields "attributes" = None) /\
  (forall json good attr rest,
     value_get json "attributes" = Some (Array (good ++ attr :: rest)) ->
     Forall string_pair good ->
     (value_get attr "key" = None ->
        attributes_try_from to_string json = Err (MissingKey (to_string attr))) /\
     (forall k, value_get attr "key" = Some (JString k) ->
        value_get attr "value" = None ->
        attributes_try_from to_string json = Err (MissingValue (to_string attr)))).
Proof.
  split.
  - intros fields. unfold attributes_try_from. simpl. split.
    + destruct (assoc_get fields "attributes") as [a|]; [|done]. simpl.
      destruct (from_value_vec a) as [l|]; simpl; [|discriminate].
      intros E. exfalso. exact (parse_attrs_not_missing_attributes to_string l ∅ E).
    + intros ->. reflexivity.
  - intros json good attr rest Ha Hg. unfold attributes_try_from. rewrite Ha. simpl.
    destruct (parse_attrs_good_prefix to_string good (attr :: rest) ∅ Hg) as [m' ->].
    simpl. split.
    + intros Hk. by rewrite Hk.
    + intros k Hk Hv. rewrite Hk. simpl. by rewrite Hv.
Qed.

Lemma attributes_try_from_panic_cases_witness :
  well_typed_input
    (Object [("attributes", Array [Object [("key", JString "a"); ("value", JString "b")]])]) /\
  attributes_try_from (fun _ => "")
    (Object [("attributes", Array [Object [("key", JString "a"); ("value", JString "b")]])])
    <> Panic.
Proof.
  assert (Hw : well_typed_input
    (Object [("attributes", Array [Object [("key", JString "a"); ("value", JString "b")]])])).
  { vm_compute. constructor; [|constructor].
    split; intros x Hx; injection Hx as <-; eauto. }
  split; [exact Hw|].
  apply (proj1 (proj1 (attributes_try_from_panic_cases (fun _ => "")
    (Object [("attributes", Array [Object [("key", JString "a"); ("value", JString "b")]])])) Hw)).
Defined.

Lemma attributes_try_from_errors_witness :
  Forall string_pair [Object [("key", JString "a"); ("value", JString "b")]] /\
  attributes_try_from (fun v => match v with Object _ => "{obj}" | _ => "" end)
    (Object [("attributes", Array [Object [("key", JString "a"); ("value", JString "b")];
                                   Object [("value", JString "c")]])])
    = Err (MissingKey "{obj}").
Proof.
  assert (Hg : Forall string_pair [Object [("key", JString "a"); ("value", JString "b")]]).
  { constructor; [|constructor]. exists "a", "b". split; reflexivity. }
  split; [exact Hg|].
  apply (proj1 (proj2 (attributes_try_from_errors
    (fun v => match v with Object _ => "{obj}" | _ => "" end))
    (Object [("attributes", Array [Object [("key", JString "a"); ("value", JString "b")];
                                   Object [("value", JString "c")]])])
    [Object [("key", JString "a"); ("value", JString "b")]]
    (Object [("value", JString "c")]) [] eq_refl Hg)).
  reflexivity.
Defined.

Lemma new_tx_event_unreachable_witness :
  valid_tx_type (header (mkTx (@Protocol unit unit unit unit tt) tt)) = true /\
  is_Some (new_tx_event tt (fun _ => zero_hash) (mkTx (@Protocol unit unit unit unit tt) tt) 0).
Proof.
  split; [reflexivity|].
  apply (proj2 (new_tx_event_unreachable tt (fun _ => zero_hash)
    (mkTx (@Protocol unit unit unit unit tt) tt) 0)).
  reflexivity.
Defined.

(* ------------------------------------------------------------------ *)
(** ** Further properties of the event code *)

(** Writing the same key twice through [IndexMut] keeps the last value. *)
Theorem assign_index_twice (ev : Event) (k v1 v2 : string) :
  assign_index (assign_index ev k v1) k v2 = assign_index ev k v2.
Proof.
  rewrite !assign_index_eq. cbn [event_type level attributes].
  by rewrite insert_insert_eq.
Qed.

(** Writes through [IndexMut] to two different keys commute. *)
Theorem assign_index_commute (ev : Event) (k1 k2 v1 v2 : string) :
  k1 <> k2 ->
  assign_index (assign_index ev k1 v1) k2 v2 = assign_index (assign_index ev k2 v2) k1 v1.
Proof.
  intros Hne. rewrite !assign_index_eq. cbn [event_type level attributes].
  by rewrite insert_insert_ne.
Qed.

Lemma assign_index_commute_witness :
  "hash" <> "log" /\
  assign_index (assign_index (mkEvent Applied EventLevel.Tx ∅) "hash" "A") "log" ""
  = assign_index (assign_index (mkEvent Applied EventLevel.Tx ∅) "log" "") "hash" "A".
Proof.
  assert (H : "hash" <> "log") by discriminate. split; [exact H|].
  exact (assign_index_commute (mkEvent Applied EventLevel.Tx ∅) "hash" "log" "A" "" H).
Defined.


(** A transaction event always has exactly the three attributes [hash],
    [height] and [log]. *)
Theorem new_tx_event_dom
    {WrapperTx DecryptedTx ProtocolTx RawHeader TxBody : Type}
    (raw_header_default : RawHeader)
    (header_hash : Tx WrapperTx DecryptedTx ProtocolTx RawHeader TxBody -> Hash)
    (tx : Tx WrapperTx DecryptedTx ProtocolTx RawHeader TxBody) (height : N) :
  valid_tx_type (header tx) = true ->
  exists ev, new_tx_event raw_header_default header_hash tx height = Some ev /\
    dom (attributes ev) = ({["hash"; "height"; "log"]} : gset string) /\
    size (attributes ev) = 3%nat.
Proof.
  intros Hv. rewrite (new_tx_event_shape _ _ _ _ Hv).
  eexists; split; [reflexivity|]. cbn [attributes]. split.
  - rewrite !dom_insert_L, dom_empty_L. set_solver.
  - rewrite !map_size_insert_None; [rewrite map_size_empty; reflexivity|..];
      rewrite ?lookup_insert_ne by discriminate; apply lookup_empty.
Qed.

Lemma new_tx_event_dom_witness :
  valid_tx_type (header (mkTx (@Decrypted unit unit unit unit tt) tt)) = true /\
  exists ev, new_tx_event tt (fun _ => zero_hash)
               (mkTx (@Decrypted unit unit unit unit tt) tt) 12 = Some ev /\
    dom (attributes ev) = ({["hash"; "height"; "log"]} : gset string) /\
    size (attributes ev) = 3%nat.
Proof.
  split; [reflexivity|].
  apply (new_tx_event_dom tt (fun _ => zero_hash)
           (mkTx (@Decrypted unit unit unit unit tt) tt) 12).
  reflexivity.
Defined.


(** Events of heights that differ have [height] attributes that differ. *)
Theorem new_tx_event_height_injective
    {WrapperTx DecryptedTx ProtocolTx RawHeader TxBody : Type}
    (raw_header_default : RawHeader)
    (header_hash : Tx WrapperTx DecryptedTx ProtocolTx RawHeader TxBody -> Hash)
    (tx1 tx2 : Tx WrapperTx DecryptedTx ProtocolTx RawHeader TxBody)
    (h1 h2 : N) (ev1 ev2 : Event) :
  new_tx_event raw_header_default header_hash tx1 h1 = Some ev1 ->
  new_tx_event raw_header_default header_hash tx2 h2 = Some ev2 ->
  get ev1 "height" = get ev2 "height" -> h1 = h2.
Proof.
  intros E1 E2 Hh.
  destruct (valid_tx_type (header tx1)) eqn:V1;
    [|by rewrite (new_tx_event_invalid _ _ _ _ V1) in E1].
  destruct (valid_tx_type (header tx2)) eqn:V2;
    [|by rewrite (new_tx_event_invalid _ _ _ _ V2) in E2].
  rewrite (new_tx_event_shape _ _ _ _ V1) in E1.
  rewrite (new_tx_event_shape _ _ _ _ V2) in E2.
  injection E1 as <-. injection E2 as <-. unfold get in Hh. cbn [attributes] in Hh.
  rewrite !lookup_insert_ne, !lookup_insert_eq in Hh by discriminate.
  injection Hh as Hh. unfold u64_to_string in Hh. by apply (inj pretty).
Qed.

Lemma new_tx_event_height_injective_witness :
  exists ev1 ev2,
    new_tx_event tt (fun _ => zero_hash) (mkTx (@Wrapper unit unit unit unit tt) tt) 5
      = Some ev1 /\
    new_tx_event tt (fun _ => zero_hash) (mkTx (@Protocol unit unit unit unit tt) tt) 5
      = Some ev2 /\
    get ev1 "height" = get ev2 "height" /\ (5 = 5)%N.
Proof.
  eexists _, _. split; [reflexivity|]. split; [reflexivity|].
  assert (Hh : get (mkEvent Accepted EventLevel.Tx
      (<["log" := ""]> (<["height" := u64_to_string 5]>
         (<["hash" := hash_to_string zero_hash]> ∅))))
      "height" =
    get (mkEvent Applied EventLevel.Tx
      (<["log" := ""]> (<["height" := u64_to_string 5]>
         (<["hash" := hash_to_string zero_hash]> ∅))))
      "height") by reflexivity.
  split; [exact Hh|].
  exact (new_tx_event_height_injective tt (fun _ => zero_hash)
    (mkTx (@Wrapper unit unit unit unit tt) tt)
    (mkTx (@Protocol unit unit unit unit tt) tt) 5 5 _ _ eq_refl eq_refl Hh).
Defined.

(** The [Display] rendering of [EventType] identifies the kind, except
    that [Ibc s] collides with [Accepted], [Applied] or [Proposal] when
    [s] is "accepted", "applied" or "proposal". *)
Theorem event_type_to_string_collisions (e1 e2 : EventType) :
  event_type_to_string e1 = event_type_to_string e2 ->
  e1 = e2 \/
  exists s, (e1 = Ibc s \/ e2 = Ibc s) /\ s ∈ ["accepted"; "applied"; "proposal"].
Proof.
  intros E. destruct e1, e2; simpl in E; try discriminate; subst;
    try (left; reflexivity); right;
    first [ exists "accepted"; split; [by auto | set_solver]
          | exists "applied"; split; [by auto | set_solver]
          | exists "proposal"; split; [by auto | set_solver] ].
Qed.

Lemma event_type_to_string_collisions_witness :
  event_type_to_string (Ibc "applied") = event_type_to_string Applied /\
  (Ibc "applied" = Applied \/
   exists s, (Ibc "applied" = Ibc s \/ Applied = Ibc s) /\
             s ∈ ["accepted"; "applied"; "proposal"]).
Proof.
  assert (E : event_type_to_string (Ibc "applied") = event_type_to_string Applied)
    by reflexivity.
  split; [exact E|]. exact (event_type_to_string_collisions _ _ E).
Defined.

(** The ABCI event has as many attributes as the event's map has entries. *)
Theorem abci_of_event_length (ev : Event) :
  length (abci_attributes (abci_of_event ev)) = size (attributes ev).
Proof.
  unfold abci_of_event. cbn [abci_attributes].
  by rewrite length_map, length_map_to_list.
Qed.

(** [Attributes::take] hands out the stored value and removes the key,
    leaves every other key as it was, and a second [take] of the same key
    gives [None]. *)
Theorem attributes_take_spec (a : Attributes) (k : string) :
  let '(a', r) := attributes_take a k in
  r = attributes_get a k /\
  attributes_get a' k = None /\
  (forall k', k' <> k -> attributes_get a' k' = attributes_get a k') /\
  snd (attributes_take a' k) = None.
Proof.
  unfold attributes_take, attributes_get. cbn [attrs_map fst snd].
  split; [done|]. split; [apply lookup_delete_eq|]. split.
  - intros k' Hne. by apply lookup_delete_ne.
  - apply lookup_delete_eq.
Qed.

(** On any input that is not a JSON object, [Value::get] finds no field,
    so the parser reports [MissingAttributes]. *)
Theorem attributes_try_from_non_object (to_string : Value -> string) (json : Value) :
  (forall fields, json <> Object fields) ->
  attributes_try_from to_string json = Err MissingAttributes.
Proof.
  intros Hno. unfold attributes_try_from.
  destruct json; try reflexivity. exfalso. by apply (Hno fields).
Qed.

Lemma attributes_try_from_non_object_witness :
  (forall fields, Array [] <> Object fields) /\
  attributes_try_from (fun _ => "") (Array []) = Err MissingAttributes.
Proof.
  assert (H : forall fields, Array [] <> Object fields) by discriminate.
  split; [exact H|]. exact (attributes_try_from_non_object (fun _ => "") (Array []) H).
Defined.

(** A [{key, value}] record of two strings. *)
Definition pair_record (p : string * string) : Value :=
  Object [("key", JString p.1); ("value", JString p.2)].

Lemma parse_attrs_pairs (to_string : Value -> string) (ps : list (string * string))
    (m : gmap string string) :
  parse_attrs to_string (map pair_record ps) m =
    Ok (mkAttributes (foldl (fun acc p => <[p.1 := p.2]> acc) m ps)).
Proof. revert m. induction ps as [|[k v] ps IH]; intros m; simpl; [done|]. apply IH. Qed.

Lemma foldl_insert_notin (ps : list (string * string)) (m : gmap string string) (k : string) :
  k ∉ ps.*1 -> foldl (fun acc p => <[p.1 := p.2]> acc) m ps !! k = m !! k.
Proof.
  revert m. induction ps as [|[k' v'] ps IH]; intros m Hk; simpl; [done|].
  rewrite IH by set_solver. apply lookup_insert_ne. set_solver.
Qed.

(** A key repeated in the [attributes] array takes the value of its last
    record, and a key no record has is absent from the result. *)
Theorem attributes_try_from_last_write_wins (to_string : Value -> string)
    (json : Value) (ps1 ps2 : list (string * string)) (k v : string) :
  value_get json "attributes" = Some (Array (map pair_record (ps1 ++ (k, v) :: ps2))) ->
  k ∉ ps2.*1 ->
  exists a, attributes_try_from to_string json = Ok a /\
    attributes_get a k = Some v /\
    (forall k' : string, k' ∉ fst <$> (ps1 ++ (k, v) :: ps2)%list -> attributes_get a k' = None).
Proof.
  intros Ha Hk. unfold attributes_try_from. rewrite Ha. simpl.
  rewrite parse_attrs_pairs. eexists; split; [reflexivity|].
  unfold attributes_get; cbn [attrs_map]. split.
  - rewrite foldl_app. simpl. rewrite foldl_insert_notin by exact Hk.
    apply lookup_insert_eq.
  - intros k' Hk'. rewrite foldl_insert_notin by exact Hk'. apply lookup_empty.
Qed.

Lemma attributes_try_from_last_write_wins_witness :
  value_get (Object [("attributes",
     Array (map pair_record ([("a", "1")] ++ ("a", "2") :: [("b", "3")])))]) "attributes"
    = Some (Array (map pair_record ([("a", "1")] ++ ("a", "2") :: [("b", "3")]))) /\
  ("a" ∉ ([("b", "3")].*1)) /\
  exists a, attributes_try_from (fun _ => "")
     (Object [("attributes",
        Array (map pair_record ([("a", "1")] ++ ("a", "2") :: [("b", "3")])))]) = Ok a /\
    attributes_get a "a" = Some "2" /\
    (forall k' : string, k' ∉ fst <$> ([("a", "1")] ++ ("a", "2") :: [("b", "3")])%list ->
       attributes_get a k' = None).
Proof.
  assert (Hk : "a" ∉ ([("b", "3")].*1)) by (simpl; set_solver).
  split; [reflexivity|]. split; [exact Hk|].
  exact (attributes_try_from_last_write_wins (fun _ => "")
    (Object [("attributes",
       Array (map pair_record ([("a", "1")] ++ ("a", "2") :: [("b", "3")])))])
    [("a", "1")] [("b", "3")] "a" "2" eq_refl Hk).
Defined.

Lemma parse_attrs_ok_inv (to_string : Value -> string) (l : list Value)
    (m : gmap string string) (a : Attributes) :
  parse_attrs to_string l m = Ok a ->
  Forall string_pair l /\
  (forall k, is_Some (attrs_map a !! k) <->
     is_Some (m !! k) \/ Exists (fun attr => value_get attr "key" = Some (JString k)) l).
Proof.
  revert m. induction l as [|attr l IH]; intros m E; simpl in E.
  - injection E as <-. split; [constructor|]. intros k. cbn [attrs_map].
    rewrite Exists_nil. tauto.
  - destruct (value_get attr "key") as [kv|] eqn:Ek; simpl in E; [|discriminate].
    destruct kv as [| | |ks| |]; simpl in E; try discriminate.
    destruct (value_get attr "value") as [vv|] eqn:Ev; simpl in E; [|discriminate].
    destruct vv as [| | |vs| |]; simpl in E; try discriminate.
    destruct (IH _ E) as [Hf Hk]. split.
    + constructor; [|exact Hf]. exists ks, vs. by split.
    + intros k. rewrite Hk, Exists_cons, lookup_insert. case_decide as Hd.
      * subst. split; [intros _; right; left; exact Ek|intros _; left; eauto].
      * split.
        { intros [H|H]; [by left|by right; right]. }
        { intros [H|[H|H]]; [by left| |by right].
          rewrite Ek in H. injection H as ->. by destruct Hd. }
Qed.

(** The parser never succeeds by skipping a record: on success the
    [attributes] field is an array whose records all pair a string [key]
    with a string [value], and the keys of the result are exactly the
    records' keys. *)
Theorem attributes_try_from_ok_inv (to_string : Value -> string) (json : Value)
    (a : Attributes) :
  attributes_try_from to_string json = Ok a ->
  exists l, value_get json "attributes" = Some (Array l) /\
    Forall string_pair l /\
    (forall k, is_Some (attributes_get a k) <->
       Exists (fun attr => value_get attr "key" = Some (JString k)) l).
Proof.
  unfold attributes_try_from. intros E.
  destruct (value_get json "attributes") as [v|]; simpl in E; [|discriminate].
  destruct v; simpl in E; try discriminate.
  destruct (parse_attrs_ok_inv to_string l ∅ a E) as [Hf Hk].
  exists l. split; [done|]. split; [done|]. intros k. unfold attributes_get.
  rewrite Hk, lookup_empty. split; [intros [[? H]|H]; [discriminate|done]|by right].
Qed.

Lemma attributes_try_from_ok_inv_witness :
  attributes_try_from (fun _ => "") (Object [("attributes", Array [pair_record ("a", "1")])])
    = Ok (mkAttributes {["a" := "1"]}) /\
  exists l, value_get (Object [("attributes", Array [pair_record ("a", "1")])]) "attributes"
      = Some (Array l) /\
    Forall string_pair l /\
    (forall k, is_Some (attributes_get (mkAttributes {["a" := "1"]}) k) <->
       Exists (fun attr => value_get attr "key" = Some (JString k)) l).
Proof.
  assert (E : attributes_try_from (fun _ => "")
      (Object [("attributes", Array [pair_record ("a", "1")])])
    = Ok (mkAttributes {["a" := "1"]})) by reflexivity.
  split; [exact E|]. exact (attributes_try_from_ok_inv _ _ _ E).
Defined.
